(** * Keypair: a shallow embedding of [src/keypair.js]

    The JavaScript class [Keypair] binds an Ed25519 key pair to the BIP39
    mnemonic it was derived from.  Its instances are mutable objects: the
    constructor and the static factories assign the fields [_keypair] and
    [_mnemonic] of an object that already exists.  The embedding therefore
    keeps a store of [Keypair] objects addressed by reference, threads the
    process-wide random source through every call, and turns [throw] into
    an error result. *)

From Stdlib Require Import Strings.Byte Strings.String.
From stdpp Require Import base strings list.

#[global] Instance byte_eq_dec : EqDecision byte := Byte.byte_eq_dec.

(** ** Values *)

(** The object literal [{ publicKey, secretKey }] the curve utilities
    return and [_keypair] holds; both fields are [Uint8Array]s. *)
Record RawKeypair := mkRawKeypair {
  publicKey : list byte;
  secretKey : list byte
}.

#[global] Instance RawKeypair_eq_dec : EqDecision RawKeypair.
Proof. solve_decision. Defined.

(** Modelled from the spec: the class [PublicKey] of [./publicKey.js],
    a value holder built from the raw bytes of a public key with no
    behaviour beyond storage, equality and display. *)
Record PublicKey := new_PublicKey { PublicKey_bytes : list byte }.

(** An instance of [Keypair]: its two class fields.  [None] is the
    JavaScript [undefined] a declared field starts with. *)
Record KeypairObj := mkKeypairObj {
  _keypair : option RawKeypair;
  _mnemonic : option string
}.

#[global] Instance KeypairObj_eq_dec : EqDecision KeypairObj.
Proof. solve_decision. Defined.

(** The second argument of [fromSecretKey]; [{}] has no [skipValidation]. *)
Record Options := mkOptions { skipValidation : option bool }.

Definition empty_options : Options := mkOptions None.

(** ** Errors

    The source throws [Error] objects that differ only in their message;
    the specification names the four kinds.  [TypeError] is what the
    runtime raises when a property of [undefined] is read. *)
Inductive Error :=
  | InvalidMnemonicError
  | InvalidKeyLengthError
  | KeyMismatchError
  | NoMnemonicAvailableError
  | TypeError.

#[global] Instance Error_eq_dec : EqDecision Error.
Proof. solve_decision. Defined.

Definition message (e : Error) : string :=
  match e with
  | InvalidMnemonicError => "Invalid mnemonic"
  | InvalidKeyLengthError => "Invalid secret key size"
  | KeyMismatchError => "Provided secretKey is invalid"
  | NoMnemonicAvailableError => "No mnemonic available to recover from"
  | TypeError => "Cannot read properties of undefined"
  end.

Inductive result (A : Type) :=
  | Ok (a : A)
  | Throw (e : Error).
Arguments Ok {A} a.
Arguments Throw {A} e.

(** ** JavaScript truthiness, for the values a guard of the source tests *)

(** [if (mnemonic)]: [undefined] and the empty string are falsy. *)
Definition truthy_string (v : option string) : bool :=
  match v with
  | Some s => negb (String.eqb s "")
  | None => false
  end.

(** [options.skipValidation]: [undefined] and [false] are falsy. *)
Definition truthy_bool (v : option bool) : bool :=
  match v with
  | Some b => b
  | None => false
  end.

(** [a.slice(start, stop)] on a typed array, for [start <= stop]; both
    ends are clamped to the length of [a]. *)
Definition slice (start stop : nat) (a : list byte) : list byte :=
  take (stop - start) (drop start a).

(** ** The collaborators

    Neither the [bip39] package nor [./utils/ed25519.js] is part of the
    file under verification: they are interfaces.  Validation, public-key
    computation and derivation from a phrase are functions of their
    argument; the two generators draw from a random source, which is made
    explicit. *)

Module bip39.
Class Service (Rng : Type) := {
  validateMnemonic : string -> bool;
  generateMnemonic : Rng -> string * Rng
}.
End bip39.

Module ed25519.
Class Service (Rng : Type) := {
  generateKeypair : Rng -> RawKeypair * Rng;
  getPublicKey : list byte -> list byte;
  fromMnemonic : string -> RawKeypair
}.
End ed25519.

(** ** Store and computations *)

Definition ref := nat.

Record State (Rng : Type) := mkState {
  rng : Rng;
  heap : list KeypairObj
}.
Arguments mkState {Rng} rng heap.
Arguments rng {Rng} s.
Arguments heap {Rng} s.

Section Program.
Context {Rng : Type} `{!bip39.Service Rng} `{!ed25519.Service Rng}.

(** A computation runs on the store and either returns or throws; what it
    did to the store before throwing stays done. *)
Definition M (A : Type) : Type := State Rng -> result A * State Rng.

Definition ret {A} (a : A) : M A := fun s => (Ok a, s).

Definition bind {A B} (m : M A) (k : A -> M B) : M B :=
  fun s =>
    match m s with
    | (Ok a, s') => k a s'
    | (Throw e, s') => (Throw e, s')
    end.

Definition throw {A} (e : Error) : M A := fun s => (Throw e, s).

Notation "x <- m ;; k" := (bind m (fun x => k))
  (at level 100, m at next level, right associativity).
Notation "m ;;; k" := (bind m (fun _ => k))
  (at level 100, right associativity).

(** Allocation of a [Keypair] object: both fields start [undefined]. *)
Definition alloc : M ref :=
  fun s =>
    (Ok (length (heap s)),
     mkState (rng s) (heap s ++ [mkKeypairObj None None])).

Definition read (this : ref) : M KeypairObj :=
  fun s =>
    match heap s !! this with
    | Some o => (Ok o, s)
    | None => (Throw TypeError, s)
    end.

(** [this._keypair = kp] *)
Definition set_keypair (this : ref) (kp : RawKeypair) : M unit :=
  o <- read this;;
  fun s =>
    (Ok tt, mkState (rng s) (<[this := mkKeypairObj (Some kp) (_mnemonic o)]> (heap s))).

(** [this._mnemonic = m] *)
Definition set_mnemonic (this : ref) (m : string) : M unit :=
  o <- read this;;
  fun s =>
    (Ok tt, mkState (rng s) (<[this := mkKeypairObj (_keypair o) (Some m)]> (heap s))).

(** A call that draws from the random source. *)
Definition draw {A} (f : Rng -> A * Rng) : M A :=
  fun s => let (a, r) := f (rng s) in (Ok a, mkState r (heap s)).

(** [for (let i = start; i < start + count; i++) body(i)] *)
Fixpoint for_loop (count start : nat) (body : nat -> M unit) : M unit :=
  match count with
  | O => ret tt
  | S n => body start;;; for_loop n (S start) body
  end.

(** ** The class [Keypair] *)

(** The body of [constructor(mnemonic)], run on the object [this]. *)
Definition Keypair_constructor (this : ref) (mnemonic : option string) : M unit :=
  if truthy_string mnemonic then
    match mnemonic with
    | Some m =>
        if negb (bip39.validateMnemonic m) then throw InvalidMnemonicError
        else
          set_keypair this (ed25519.fromMnemonic m);;;
          set_mnemonic this m
    | None => throw TypeError
    end
  else
    m <- draw bip39.generateMnemonic;;
    set_mnemonic this m;;;
    o <- read this;;
    match _mnemonic o with
    | Some m' => set_keypair this (ed25519.fromMnemonic m')
    | None => throw TypeError
    end.

(** [new Keypair(mnemonic)] *)
Definition new_Keypair (mnemonic : option string) : M ref :=
  this <- alloc;;
  Keypair_constructor this mnemonic;;;
  ret this.

(** [new KeypairFromGenerated(keypair)]: [super()] runs the constructor
    of [Keypair] with no argument, then [_keypair] is assigned. *)
Definition new_KeypairFromGenerated (keypair : RawKeypair) : M ref :=
  this <- alloc;;
  Keypair_constructor this None;;;
  set_keypair this keypair;;;
  ret this.

(** [static generate()] *)
Definition Keypair_generate : M ref :=
  keypair <- draw ed25519.generateKeypair;;
  new_KeypairFromGenerated keypair.

(** [static fromMnemonic(mnemonic)] *)
Definition Keypair_fromMnemonic (mnemonic : string) : M ref :=
  if negb (bip39.validateMnemonic mnemonic) then throw InvalidMnemonicError
  else
    let keypair := ed25519.fromMnemonic mnemonic in
    instance <- new_Keypair None;;
    set_keypair instance keypair;;;
    set_mnemonic instance mnemonic;;;
    ret instance.

(** [get publicKey()] *)
Definition Keypair_publicKey (this : ref) : M PublicKey :=
  o <- read this;;
  match _keypair o with
  | Some kp => ret (new_PublicKey (publicKey kp))
  | None => throw TypeError
  end.

(** [get secretKey()]: a fresh array with the same bytes. *)
Definition Keypair_secretKey (this : ref) : M (list byte) :=
  o <- read this;;
  match _keypair o with
  | Some kp => ret (secretKey kp)
  | None => throw TypeError
  end.

(** [getMnemonic()] *)
Definition Keypair_getMnemonic (this : ref) : M (option string) :=
  o <- read this;;
  ret (_mnemonic o).

(** [recoverFromMnemonic()] *)
Definition Keypair_recoverFromMnemonic (this : ref) : M ref :=
  o <- read this;;
  if negb (truthy_string (_mnemonic o)) then throw NoMnemonicAvailableError
  else
    match _mnemonic o with
    | Some m => Keypair_fromMnemonic m
    | None => throw TypeError
    end.

(** [static fromSecretKey(secretKey, options = {})] *)
Definition Keypair_fromSecretKey (secretKey : list byte) (options : Options) : M ref :=
  if negb (Nat.eqb (length secretKey) 64) then throw InvalidKeyLengthError
  else
    let publicKey := slice 32 64 secretKey in
    (if negb (truthy_bool (skipValidation options)) then
       let privateKey := slice 0 32 secretKey in
       let computedPublicKey := ed25519.getPublicKey privateKey in
       for_loop 32 0 (fun i =>
         if bool_decide (publicKey !! i ≠ computedPublicKey !! i)
         then throw KeyMismatchError
         else ret tt)
     else ret tt);;;
    new_KeypairFromGenerated (mkRawKeypair publicKey secretKey).

(** ** Properties of objects and of the collaborators *)

(** The object the constructor builds when it generates the phrase
    itself, from the random source [r]. *)
Definition fresh_object (r : Rng) : KeypairObj :=
  let m := (bip39.generateMnemonic r).1 in
  mkKeypairObj (Some (ed25519.fromMnemonic m)) (Some m).

(** What a successful [fromSecretKey] leaves in the store: the claimed public key,
    the caller's array, and the phrase [super()] generated. *)
Definition built_from (k : list byte) (s : State Rng) : result ref * State Rng :=
  (Ok (length (heap s)),
   mkState (bip39.generateMnemonic (rng s)).2
     (heap s ++ [mkKeypairObj (Some (mkRawKeypair (slice 32 64 k) k))
                              (Some (bip39.generateMnemonic (rng s)).1)])).

(** The invariant of the data model: a stored phrase derives the stored
    keys. *)
Definition consistent (o : KeypairObj) : Prop :=
  match _mnemonic o with
  | Some m => _keypair o = Some (ed25519.fromMnemonic m)
  | None => True
  end.

#[global] Instance consistent_dec (o : KeypairObj) : Decision (consistent o).
Proof. unfold consistent. destruct (_mnemonic o); apply _. Defined.

End Program.

(** ** A reference instance of the collaborators

    A small deterministic stand-in for the two packages, on which the
    program can be run: the random source is a counter, a phrase is valid
    when it starts with the first word of the BIP39 list, a seed is the
    first 32 bytes of the phrase padded with zeros, and the public key of
    a private key is its bytes in reverse order. *)
Module Toy.

Definition phrase (n : nat) : string :=
  String.concat " " (replicate (S n) "abandon").

Definition validateMnemonic (m : string) : bool := String.prefix "abandon" m.

Definition generateMnemonic (r : nat) : string * nat := (phrase r, S r).

Definition getPublicKey (privateKey : list byte) : list byte := rev privateKey.

Definition keypairFromSeed (seed : list byte) : RawKeypair :=
  mkRawKeypair (getPublicKey seed) (seed ++ getPublicKey seed).

Definition fromMnemonic (m : string) : RawKeypair :=
  keypairFromSeed (take 32 (list_byte_of_string m ++ replicate 32 x00)).

Definition generateKeypair (r : nat) : RawKeypair * nat :=
  (keypairFromSeed (replicate 32 (if Nat.even r then x01 else x02)), S r).

#[global] Instance bip39_service : bip39.Service nat :=
  {| bip39.validateMnemonic := validateMnemonic;
     bip39.generateMnemonic := generateMnemonic |}.

#[global] Instance ed25519_service : ed25519.Service nat :=
  {| ed25519.generateKeypair := generateKeypair;
     ed25519.getPublicKey := getPublicKey;
     ed25519.fromMnemonic := fromMnemonic |}.

(** A process that has drawn nothing and built nothing yet. *)
Definition start : State nat := mkState 0 [].

(** A 64-byte key whose second half is not the public key of the first. *)
Definition mismatched_key : list byte := replicate 32 x00 ++ replicate 32 x01.

(** A 64-byte key laid out as the curve utilities produce it. *)
Definition matching_key : list byte := secretKey (keypairFromSeed (replicate 32 x07)).

Definition skip : Options := mkOptions (Some true).

End Toy.

(** ** Clients of the class

    What a program that uses [Keypair] can do: call the constructor or a
    static factory, and call [recoverFromMnemonic] on an object it was
    handed before. *)

Section Clients.
Context {Rng : Type} `{!bip39.Service Rng} `{!ed25519.Service Rng}.

Inductive call :=
  | CallNew (mnemonic : option string)
  | CallGenerate
  | CallFromMnemonic (mnemonic : string)
  | CallFromSecretKey (secretKey : list byte) (options : Options)
  | CallRecover (this : ref).

Definition run_call (c : call) : M ref :=
  match c with
  | CallNew mnemonic => new_Keypair mnemonic
  | CallGenerate => Keypair_generate
  | CallFromMnemonic mnemonic => Keypair_fromMnemonic mnemonic
  | CallFromSecretKey secretKey options => Keypair_fromSecretKey secretKey options
  | CallRecover this => Keypair_recoverFromMnemonic this
  end.

(** A method is called on an object the client holds. *)
Definition callable (held : list ref) (c : call) : Prop :=
  match c with
  | CallRecover this => this ∈ held
  | _ => True
  end.

(** The states a client can bring the store to, with the references it
    was handed on the way.  A call that throws hands out nothing. *)
Inductive reachable : State Rng -> list ref -> Prop :=
  | reachable_start (r : Rng) :
      reachable (mkState r []) []
  | reachable_return (c : call) (s s' : State Rng) (held : list ref) (this : ref) :
      reachable s held -> callable held c ->
      run_call c s = (Ok this, s') ->
      reachable s' (this :: held)
  | reachable_throw (c : call) (s s' : State Rng) (held : list ref) (e : Error) :
      reachable s held -> callable held c ->
      run_call c s = (Throw e, s') ->
      reachable s' held.

(** The layout of a secret key the curve utilities agree with: 64 bytes,
    the public key in the second half, and the first 32 bytes of the key
    computed from the first half equal to it. *)
Definition well_formed (kp : RawKeypair) : Prop :=
  length (secretKey kp) = 64 ∧
  publicKey kp = drop 32 (secretKey kp) ∧
  take 32 (ed25519.getPublicKey (take 32 (secretKey kp))) = publicKey kp.

#[global] Instance well_formed_dec (kp : RawKeypair) : Decision (well_formed kp).
Proof. unfold well_formed. apply _. Defined.

End Clients.

(** ** Running the constructors

    Closed forms of what each way of building an object leaves in the
    store.  An object is always allocated at the end of the store, so the
    assignments of a constructor all hit the last cell. *)

Section Store.
Context {Rng : Type} `{!bip39.Service Rng} `{!ed25519.Service Rng}.

Lemma lookup_last (l : list KeypairObj) (o : KeypairObj) :
  (l ++ [o]) !! length l = Some o.
Proof. by rewrite list_lookup_middle. Qed.

Lemma insert_last (l : list KeypairObj) (o o' : KeypairObj) :
  <[length l := o']> (l ++ [o]) = l ++ [o'].
Proof.
  rewrite insert_app_r_alt; [|lia].
  by rewrite Nat.sub_diag.
Qed.

Lemma lookup_in_range (l : list KeypairObj) (o : KeypairObj) (i : nat) :
  l !! i = Some o -> i ≠ length l.
Proof. intros Hi%lookup_lt_Some. lia. Qed.

Lemma alloc_run (s : State Rng) :
  alloc s = (Ok (length (heap s)), mkState (rng s) (heap s ++ [mkKeypairObj None None])).
Proof. reflexivity. Qed.

Lemma read_last (r : Rng) (l : list KeypairObj) (o : KeypairObj) :
  read (length l) (mkState r (l ++ [o])) = (Ok o, mkState r (l ++ [o])).
Proof. unfold read. cbn [heap]. by rewrite lookup_last. Qed.

Lemma set_keypair_last (r : Rng) (l : list KeypairObj) (o : KeypairObj)
    (kp : RawKeypair) :
  set_keypair (length l) kp (mkState r (l ++ [o])) =
    (Ok tt, mkState r (l ++ [mkKeypairObj (Some kp) (_mnemonic o)])).
Proof.
  unfold set_keypair, bind. rewrite read_last. cbn [heap rng].
  by rewrite insert_last.
Qed.

Lemma set_mnemonic_last (r : Rng) (l : list KeypairObj) (o : KeypairObj)
    (m : string) :
  set_mnemonic (length l) m (mkState r (l ++ [o])) =
    (Ok tt, mkState r (l ++ [mkKeypairObj (_keypair o) (Some m)])).
Proof.
  unfold set_mnemonic, bind. rewrite read_last. cbn [heap rng].
  by rewrite insert_last.
Qed.

Lemma draw_run {A} (f : Rng -> A * Rng) (s : State Rng) :
  draw f s = (Ok (f (rng s)).1, mkState (f (rng s)).2 (heap s)).
Proof. unfold draw. by destruct (f (rng s)). Qed.

End Store.

Ltac run :=
  repeat first
    [ rewrite alloc_run
    | rewrite draw_run
    | rewrite read_last
    | rewrite set_keypair_last
    | rewrite set_mnemonic_last
    | progress cbn [heap rng _keypair _mnemonic fst snd]
    | progress unfold bind at 1
    | progress unfold ret at 1 ].

Section Running.
Context {Rng : Type} `{!bip39.Service Rng} `{!ed25519.Service Rng}.

Lemma Keypair_constructor_omitted (r : Rng) (l : list KeypairObj) (o : KeypairObj) :
  Keypair_constructor (length l) None (mkState r (l ++ [o])) =
    (Ok tt, mkState (bip39.generateMnemonic r).2 (l ++ [fresh_object r])).
Proof. unfold Keypair_constructor, fresh_object. cbn [truthy_string]. by run. Qed.

Lemma new_Keypair_omitted (s : State Rng) :
  new_Keypair None s =
    (Ok (length (heap s)),
     mkState (bip39.generateMnemonic (rng s)).2 (heap s ++ [fresh_object (rng s)])).
Proof.
  unfold new_Keypair. unfold bind at 1. rewrite alloc_run.
  unfold bind at 1. by rewrite Keypair_constructor_omitted.
Qed.

Lemma new_Keypair_empty_string (s : State Rng) :
  new_Keypair (Some "") s = new_Keypair None s.
Proof. reflexivity. Qed.

Lemma new_Keypair_valid (m : string) (s : State Rng) :
  m ≠ "" -> bip39.validateMnemonic m = true ->
  new_Keypair (Some m) s =
    (Ok (length (heap s)),
     mkState (rng s)
       (heap s ++ [mkKeypairObj (Some (ed25519.fromMnemonic m)) (Some m)])).
Proof.
  intros Hm%String.eqb_neq Hv.
  unfold new_Keypair, Keypair_constructor, truthy_string.
  rewrite Hm, Hv. cbn [negb]. by run.
Qed.

Lemma new_Keypair_invalid (m : string) (s : State Rng) :
  m ≠ "" -> bip39.validateMnemonic m = false ->
  new_Keypair (Some m) s =
    (Throw InvalidMnemonicError,
     mkState (rng s) (heap s ++ [mkKeypairObj None None])).
Proof.
  intros Hm%String.eqb_neq Hv.
  unfold new_Keypair, Keypair_constructor, truthy_string.
  rewrite Hm, Hv. cbn [negb]. by run.
Qed.

(** [super()] leaves the phrase it generated in [_mnemonic]; the
    assignment that follows replaces [_keypair] only. *)
Lemma new_KeypairFromGenerated_run (kp : RawKeypair) (s : State Rng) :
  new_KeypairFromGenerated kp s =
    (Ok (length (heap s)),
     mkState (bip39.generateMnemonic (rng s)).2
       (heap s ++ [mkKeypairObj (Some kp) (Some (bip39.generateMnemonic (rng s)).1)])).
Proof.
  unfold new_KeypairFromGenerated. unfold bind at 1. rewrite alloc_run.
  unfold bind at 1. rewrite Keypair_constructor_omitted.
  unfold fresh_object. by run.
Qed.

Lemma Keypair_generate_run (s : State Rng) :
  Keypair_generate s =
    let r := (ed25519.generateKeypair (rng s)).2 in
    (Ok (length (heap s)),
     mkState (bip39.generateMnemonic r).2
       (heap s ++ [mkKeypairObj (Some (ed25519.generateKeypair (rng s)).1)
                                (Some (bip39.generateMnemonic r).1)])).
Proof.
  unfold Keypair_generate. unfold bind at 1. rewrite draw_run.
  by rewrite new_KeypairFromGenerated_run.
Qed.

Lemma Keypair_fromMnemonic_invalid (m : string) (s : State Rng) :
  bip39.validateMnemonic m = false ->
  Keypair_fromMnemonic m s = (Throw InvalidMnemonicError, s).
Proof. intros Hv. unfold Keypair_fromMnemonic, throw. by rewrite Hv. Qed.

(** The instance [new Keypair()] builds inside [fromMnemonic] costs one
    phrase of the random source; both its fields are then overwritten. *)
Lemma Keypair_fromMnemonic_valid (m : string) (s : State Rng) :
  bip39.validateMnemonic m = true ->
  Keypair_fromMnemonic m s =
    (Ok (length (heap s)),
     mkState (bip39.generateMnemonic (rng s)).2
       (heap s ++ [mkKeypairObj (Some (ed25519.fromMnemonic m)) (Some m)])).
Proof.
  intros Hv. unfold Keypair_fromMnemonic. rewrite Hv. cbn [negb].
  unfold bind at 1. rewrite new_Keypair_omitted.
  unfold fresh_object. by run.
Qed.

(** Accessors on an object of the store. *)
Lemma Keypair_getMnemonic_at (this : ref) (o : KeypairObj) (s : State Rng) :
  heap s !! this = Some o ->
  Keypair_getMnemonic this s = (Ok (_mnemonic o), s).
Proof. intros Ho. unfold Keypair_getMnemonic, bind, read, ret. by rewrite Ho. Qed.

Lemma Keypair_publicKey_at (this : ref) (kp : RawKeypair) (m : option string)
    (s : State Rng) :
  heap s !! this = Some (mkKeypairObj (Some kp) m) ->
  Keypair_publicKey this s = (Ok (new_PublicKey (publicKey kp)), s).
Proof. intros Ho. unfold Keypair_publicKey, bind, read, ret. by rewrite Ho. Qed.

Lemma Keypair_secretKey_at (this : ref) (kp : RawKeypair) (m : option string)
    (s : State Rng) :
  heap s !! this = Some (mkKeypairObj (Some kp) m) ->
  Keypair_secretKey this s = (Ok (secretKey kp), s).
Proof. intros Ho. unfold Keypair_secretKey, bind, read, ret. by rewrite Ho. Qed.

End Running.

(** ** Running [fromSecretKey] *)

Section SecretKey.
Context {Rng : Type} `{!bip39.Service Rng} `{!ed25519.Service Rng}.

(** The comparison loop stops at the first index whose bytes differ. *)
Lemma for_loop_mismatch (pub comp : list byte) (count start : nat) (s : State Rng) :
  (∃ i, start ≤ i < start + count ∧ pub !! i ≠ comp !! i) ->
  for_loop count start
    (fun i => if bool_decide (pub !! i ≠ comp !! i)
              then throw KeyMismatchError else ret tt) s
  = (Throw KeyMismatchError, s).
Proof.
  revert start. induction count as [|n IH]; intros start (i & Hi & Hne).
  - lia.
  - cbn [for_loop]. unfold bind at 1.
    destruct (decide (pub !! start = comp !! start)) as [Heq|Hdiff].
    + rewrite bool_decide_eq_false_2 by (intros Hc; by apply Hc).
      unfold ret at 1. apply IH. exists i. split; [|done].
      assert (i ≠ start) by (intros ->; done). lia.
    + by rewrite bool_decide_eq_true_2.
Qed.

Lemma for_loop_match (pub comp : list byte) (count start : nat) (s : State Rng) :
  (∀ i, start ≤ i < start + count -> pub !! i = comp !! i) ->
  for_loop count start
    (fun i => if bool_decide (pub !! i ≠ comp !! i)
              then throw KeyMismatchError else ret tt) s
  = (Ok tt, s).
Proof.
  revert start. induction count as [|n IH]; intros start Hall.
  - reflexivity.
  - cbn [for_loop]. unfold bind at 1.
    rewrite bool_decide_eq_false_2 by (intros Hc; apply Hc, Hall; lia).
    unfold ret at 1. apply IH. intros i Hi. apply Hall. lia.
Qed.

Lemma Keypair_fromSecretKey_bad_length (k : list byte) (opts : Options) (s : State Rng) :
  length k ≠ 64 ->
  Keypair_fromSecretKey k opts s = (Throw InvalidKeyLengthError, s).
Proof.
  intros Hlen%Nat.eqb_neq. unfold Keypair_fromSecretKey. by rewrite Hlen.
Qed.

Lemma Keypair_fromSecretKey_skip (k : list byte) (opts : Options) (s : State Rng) :
  length k = 64 -> truthy_bool (skipValidation opts) = true ->
  Keypair_fromSecretKey k opts s = built_from k s.
Proof.
  intros Hlen%Nat.eqb_eq Hskip. unfold Keypair_fromSecretKey, built_from.
  rewrite Hlen, Hskip. cbn [negb]. unfold bind at 1, ret at 1.
  by rewrite new_KeypairFromGenerated_run.
Qed.

Lemma Keypair_fromSecretKey_mismatch (k : list byte) (opts : Options) (s : State Rng) :
  length k = 64 -> truthy_bool (skipValidation opts) = false ->
  (∃ i, i < 32 ∧ slice 32 64 k !! i ≠ ed25519.getPublicKey (slice 0 32 k) !! i) ->
  Keypair_fromSecretKey k opts s = (Throw KeyMismatchError, s).
Proof.
  intros Hlen%Nat.eqb_eq Hskip (i & Hi & Hne). unfold Keypair_fromSecretKey.
  rewrite Hlen, Hskip. cbn [negb]. unfold bind at 1.
  rewrite for_loop_mismatch; [done|].
  exists i. split; [lia|done].
Qed.

Lemma Keypair_fromSecretKey_match (k : list byte) (opts : Options) (s : State Rng) :
  length k = 64 -> truthy_bool (skipValidation opts) = false ->
  (∀ i, i < 32 -> slice 32 64 k !! i = ed25519.getPublicKey (slice 0 32 k) !! i) ->
  Keypair_fromSecretKey k opts s = built_from k s.
Proof.
  intros Hlen%Nat.eqb_eq Hskip Hall. unfold Keypair_fromSecretKey, built_from.
  rewrite Hlen, Hskip. cbn [negb]. unfold bind at 1.
  rewrite for_loop_match by (intros i Hi; apply Hall; lia).
  by rewrite new_KeypairFromGenerated_run.
Qed.

(** Below a bound, two arrays either differ at some index or agree at
    every index. *)
Lemma differ_or_agree (pub comp : list byte) (n : nat) :
  (∃ i, i < n ∧ pub !! i ≠ comp !! i) ∨ (∀ i, i < n -> pub !! i = comp !! i).
Proof.
  induction n as [|n [(i & Hi & Hne)|Hall]].
  - right. intros i Hi. lia.
  - left. exists i. split; [lia|done].
  - destruct (decide (pub !! n = comp !! n)) as [Heq|Hne].
    + right. intros i Hi. destruct (decide (i = n)) as [->|]; [done|].
      apply Hall. lia.
    + left. exists n. split; [lia|done].
Qed.

(** Whatever the options, a 64-byte key either fails the comparison or is
    built. *)
Lemma Keypair_fromSecretKey_cases (k : list byte) (opts : Options) (s : State Rng) :
  length k = 64 ->
  Keypair_fromSecretKey k opts s = (Throw KeyMismatchError, s) ∨
  Keypair_fromSecretKey k opts s = built_from k s.
Proof.
  intros Hlen.
  destruct (truthy_bool (skipValidation opts)) eqn:Hskip.
  { right. by apply Keypair_fromSecretKey_skip. }
  destruct (differ_or_agree (slice 32 64 k)
              (ed25519.getPublicKey (slice 0 32 k)) 32) as [Hex|Hall].
  - left. by apply Keypair_fromSecretKey_mismatch.
  - right. by apply Keypair_fromSecretKey_match.
Qed.

(** When the curve utility returns 32 bytes, as its interface says, two
    keys differ at some index below 32 exactly when they are different. *)
Lemma differ_at_index (k : list byte) :
  length k = 64 -> length (ed25519.getPublicKey (slice 0 32 k)) = 32 ->
  slice 32 64 k ≠ ed25519.getPublicKey (slice 0 32 k) ->
  ∃ i, i < 32 ∧ slice 32 64 k !! i ≠ ed25519.getPublicKey (slice 0 32 k) !! i.
Proof.
  intros Hk Hc Hne.
  assert (length (slice 32 64 k) = 32) as Hp.
  { unfold slice. rewrite length_take, length_drop. lia. }
  destruct (differ_or_agree (slice 32 64 k)
              (ed25519.getPublicKey (slice 0 32 k)) 32) as [Hex|Hall]; [done|].
  exfalso. apply Hne. apply list_eq. intros i.
  destruct (decide (i < 32)) as [Hi|Hi].
  - by apply Hall.
  - rewrite !lookup_ge_None_2; [done|lia..].
Qed.

End SecretKey.

(** ** Properties of the mnemonic paths *)

Section Mnemonic.
Context {Rng : Type} `{!bip39.Service Rng} `{!ed25519.Service Rng}.

(** A phrase that passes a validation that rejects the empty phrase is a
    truthy string. *)
Lemma valid_truthy (m : string) :
  bip39.validateMnemonic "" = false -> bip39.validateMnemonic m = true ->
  truthy_string (Some m) = true.
Proof.
  intros Hempty Hv. unfold truthy_string.
  destruct (String.eqb_spec m "") as [->|]; [congruence|done].
Qed.

(** Recovery on an object without a phrase, whatever built it. *)
Lemma Keypair_recoverFromMnemonic_absent (this : ref) (o : KeypairObj) (s : State Rng) :
  heap s !! this = Some o -> _mnemonic o = None ->
  Keypair_recoverFromMnemonic this s = (Throw NoMnemonicAvailableError, s).
Proof.
  intros Ho Hm. unfold Keypair_recoverFromMnemonic, bind, read.
  by rewrite Ho, Hm.
Qed.

Lemma Keypair_recoverFromMnemonic_present (this : ref) (o : KeypairObj) (m : string)
    (s : State Rng) :
  heap s !! this = Some o -> _mnemonic o = Some m -> m ≠ "" ->
  Keypair_recoverFromMnemonic this s = Keypair_fromMnemonic m s.
Proof.
  intros Ho Hm Hne%String.eqb_neq. unfold Keypair_recoverFromMnemonic, bind, read.
  rewrite Ho, Hm. unfold truthy_string. by rewrite Hne.
Qed.

(** The constructor either returns or rejects the phrase. *)
Lemma new_Keypair_cases (arg : option string) (s : State Rng) :
  (∃ s', new_Keypair arg s = (Ok (length (heap s)), s')) ∨
  (∃ m, arg = Some m ∧ m ≠ "" ∧ bip39.validateMnemonic m = false).
Proof.
  destruct arg as [m|].
  - destruct (decide (m = "")) as [->|Hm].
    + left. rewrite new_Keypair_empty_string, new_Keypair_omitted. by eexists.
    + destruct (bip39.validateMnemonic m) eqn:Hv.
      * left. rewrite new_Keypair_valid by done. by eexists.
      * right. by exists m.
  - left. rewrite new_Keypair_omitted. by eexists.
Qed.

(** C7: [fromMnemonic] is deterministic.  For a valid phrase, two calls
    from any two states of the store and of the random source both return,
    and the [publicKey] and [secretKey] accessors give the same values on
    the two results. *)
Theorem fromMnemonic_deterministic (m : string) (s1 s2 : State Rng) :
  bip39.validateMnemonic m = true ->
  ∃ t1 s1' t2 s2' pk sk,
    Keypair_fromMnemonic m s1 = (Ok t1, s1') ∧
    Keypair_fromMnemonic m s2 = (Ok t2, s2') ∧
    Keypair_publicKey t1 s1' = (Ok pk, s1') ∧
    Keypair_publicKey t2 s2' = (Ok pk, s2') ∧
    Keypair_secretKey t1 s1' = (Ok sk, s1') ∧
    Keypair_secretKey t2 s2' = (Ok sk, s2').
Proof.
  intros Hv.
  eexists _, _, _, _, _, _.
  split; [by apply Keypair_fromMnemonic_valid|].
  split; [by apply Keypair_fromMnemonic_valid|].
  repeat split.
  - eapply Keypair_publicKey_at. cbn [heap]. apply lookup_last.
  - eapply Keypair_publicKey_at. cbn [heap]. apply lookup_last.
  - eapply Keypair_secretKey_at. cbn [heap]. apply lookup_last.
  - eapply Keypair_secretKey_at. cbn [heap]. apply lookup_last.
Qed.

(** C8: recovery round trip.  With a validation that rejects the empty
    phrase, for a valid phrase [m] the call [fromMnemonic(m)] returns an
    object [t], [t.recoverFromMnemonic()] returns another object [t'],
    the three accessors agree on [t] and [t'] and report the keys derived
    from [m] and [m] itself, and the recovery leaves [t] as it was. *)
Theorem recover_round_trip (m : string) (s : State Rng) :
  bip39.validateMnemonic "" = false ->
  bip39.validateMnemonic m = true ->
  ∃ t s1 t' s2,
    Keypair_fromMnemonic m s = (Ok t, s1) ∧
    Keypair_recoverFromMnemonic t s1 = (Ok t', s2) ∧
    t' ≠ t ∧
    heap s2 !! t = heap s1 !! t ∧
    (Keypair_publicKey t' s2).1 = (Keypair_publicKey t s1).1 ∧
    (Keypair_secretKey t' s2).1 = (Keypair_secretKey t s1).1 ∧
    (Keypair_getMnemonic t' s2).1 = (Keypair_getMnemonic t s1).1 ∧
    (Keypair_publicKey t s1).1 = Ok (new_PublicKey (publicKey (ed25519.fromMnemonic m))) ∧
    (Keypair_secretKey t s1).1 = Ok (secretKey (ed25519.fromMnemonic m)) ∧
    (Keypair_getMnemonic t s1).1 = Ok (Some m).
Proof.
  intros Hempty Hv.
  set (o := mkKeypairObj (Some (ed25519.fromMnemonic m)) (Some m)).
  set (s1 := mkState (bip39.generateMnemonic (rng s)).2 (heap s ++ [o])).
  set (s2 := mkState (bip39.generateMnemonic (rng s1)).2 (heap s1 ++ [o])).
  assert (heap s1 !! length (heap s) = Some o) as H1 by apply lookup_last.
  assert (heap s2 !! length (heap s1) = Some o) as H2 by apply lookup_last.
  assert (heap s2 !! length (heap s) = Some o) as H3.
  { unfold s2. cbn [heap]. rewrite lookup_app_l; [done|].
    by eapply lookup_lt_Some. }
  assert (m ≠ "") as Hm by (intros ->; congruence).
  exists (length (heap s)), s1, (length (heap s1)), s2.
  split; [by apply Keypair_fromMnemonic_valid|].
  split.
  { rewrite (Keypair_recoverFromMnemonic_present _ o m) by done.
    by apply Keypair_fromMnemonic_valid. }
  split; [by apply lookup_in_range in H1|].
  split; [etrans; [exact H3|symmetry; exact H1]|].
  rewrite (Keypair_publicKey_at _ _ _ _ H1), (Keypair_publicKey_at _ _ _ _ H2).
  rewrite (Keypair_secretKey_at _ _ _ _ H1), (Keypair_secretKey_at _ _ _ _ H2).
  rewrite (Keypair_getMnemonic_at _ _ _ H1), (Keypair_getMnemonic_at _ _ _ H2).
  done.
Qed.

(** C9: the constructor without an argument.  [new Keypair()] returns an
    object whose [getMnemonic()] is a phrase, not [undefined], and the
    keys the accessors report are the ones the curve utility derives from
    that phrase. *)
Theorem default_constructor_attaches_mnemonic (s : State Rng) :
  ∃ this s' m,
    new_Keypair None s = (Ok this, s') ∧
    Keypair_getMnemonic this s' = (Ok (Some m), s') ∧
    Keypair_publicKey this s' =
      (Ok (new_PublicKey (publicKey (ed25519.fromMnemonic m))), s') ∧
    Keypair_secretKey this s' = (Ok (secretKey (ed25519.fromMnemonic m)), s') ∧
    heap s' !! this = Some (mkKeypairObj (Some (ed25519.fromMnemonic m)) (Some m)).
Proof.
  set (m := (bip39.generateMnemonic (rng s)).1).
  set (o := mkKeypairObj (Some (ed25519.fromMnemonic m)) (Some m)).
  set (s' := mkState (bip39.generateMnemonic (rng s)).2 (heap s ++ [o])).
  assert (heap s' !! length (heap s) = Some o) as Hlast by apply lookup_last.
  exists (length (heap s)), s', m.
  split; [apply new_Keypair_omitted|].
  split; [exact (Keypair_getMnemonic_at _ o _ Hlast)|].
  split; [exact (Keypair_publicKey_at _ _ _ _ Hlast)|].
  split; [exact (Keypair_secretKey_at _ _ _ _ Hlast)|].
  exact Hlast.
Qed.

(** C10: when the constructor rejects its argument.  [new Keypair(arg)]
    throws the invalid-mnemonic error exactly when [arg] is a non-empty
    string that fails validation; the empty string runs as an omitted
    argument does, and that run returns an object holding a freshly
    generated phrase and the keys derived from it. *)
Theorem constructor_rejects_iff (arg : option string) (s : State Rng) :
  ((new_Keypair arg s).1 = Throw InvalidMnemonicError ↔
     ∃ m, arg = Some m ∧ m ≠ "" ∧ bip39.validateMnemonic m = false) ∧
  new_Keypair (Some "") s = new_Keypair None s ∧
  new_Keypair None s =
    (Ok (length (heap s)),
     mkState (bip39.generateMnemonic (rng s)).2 (heap s ++ [fresh_object (rng s)])).
Proof.
  split; [|split; [apply new_Keypair_empty_string|apply new_Keypair_omitted]].
  split.
  - intros Hthrow.
    destruct (new_Keypair_cases arg s) as [[s' Hok]|Hbad]; [|done].
    rewrite Hok in Hthrow. discriminate.
  - intros (m & -> & Hm & Hv). by rewrite new_Keypair_invalid.
Qed.

(** C4, amended: invalid phrases.  For a phrase that fails validation,
    the static [fromMnemonic] throws the invalid-mnemonic error and leaves
    the store and the random source as they were; the constructor throws
    it when the phrase is moreover not the empty string, and then returns
    no object: the one it was running on keeps both fields [undefined]. *)
Theorem invalid_mnemonic_rejected (m : string) (s : State Rng) :
  bip39.validateMnemonic m = false ->
  Keypair_fromMnemonic m s = (Throw InvalidMnemonicError, s) ∧
  (m ≠ "" ->
   new_Keypair (Some m) s =
     (Throw InvalidMnemonicError,
      mkState (rng s) (heap s ++ [mkKeypairObj None None]))).
Proof.
  intros Hv. split.
  - by apply Keypair_fromMnemonic_invalid.
  - intros Hm. by apply new_Keypair_invalid.
Qed.

End Mnemonic.

(** ** Properties of the raw-key paths *)

Section RawKeys.
Context {Rng : Type} `{!bip39.Service Rng} `{!ed25519.Service Rng}.

(** The paths that go through the mnemonic keep the invariant. *)
Lemma new_Keypair_consistent (arg : option string) (this : ref) (s s' : State Rng) :
  new_Keypair arg s = (Ok this, s') ->
  ∃ o, heap s' !! this = Some o ∧ consistent o.
Proof.
  destruct arg as [m|].
  - destruct (decide (m = "")) as [->|Hm].
    + rewrite new_Keypair_empty_string, new_Keypair_omitted.
      intros [= <- <-]. eexists. split; [apply lookup_last|done].
    + destruct (bip39.validateMnemonic m) eqn:Hv.
      * rewrite new_Keypair_valid by done.
        intros [= <- <-]. eexists. split; [apply lookup_last|done].
      * by rewrite new_Keypair_invalid.
  - rewrite new_Keypair_omitted.
    intros [= <- <-]. eexists. split; [apply lookup_last|done].
Qed.

Lemma Keypair_fromMnemonic_consistent (m : string) (this : ref) (s s' : State Rng) :
  Keypair_fromMnemonic m s = (Ok this, s') ->
  ∃ o, heap s' !! this = Some o ∧ consistent o.
Proof.
  destruct (bip39.validateMnemonic m) eqn:Hv.
  - rewrite Keypair_fromMnemonic_valid by done.
    intros [= <- <-]. eexists. split; [apply lookup_last|done].
  - by rewrite Keypair_fromMnemonic_invalid.
Qed.

(** An object [fromSecretKey] built keeps the invariant only when its key
    is the one the curve utility derives from the phrase [super()] drew. *)
Lemma built_from_consistent (k : list byte) (s : State Rng) :
  ∃ o, heap (built_from k s).2 !! length (heap s) = Some o ∧
       is_Some (_mnemonic o) ∧
       (consistent o ↔
        ed25519.fromMnemonic (bip39.generateMnemonic (rng s)).1
          = mkRawKeypair (slice 32 64 k) k).
Proof.
  eexists. split; [apply lookup_last|]. split; [by eexists|].
  unfold consistent. cbn [_mnemonic _keypair]. split; congruence.
Qed.

(** C1, as the code runs: a mnemonic is attached on the raw-key paths.
    [generate()] always returns, [fromSecretKey] returns on every 64-byte
    key when validation is skipped, and on every object either of them
    returns [getMnemonic()] is a phrase, the one [super()] generated, and
    not [undefined]. *)
Theorem raw_paths_attach_mnemonic (s : State Rng) :
  (∃ this s' m,
     Keypair_generate s = (Ok this, s') ∧
     Keypair_getMnemonic this s' = (Ok (Some m), s')) ∧
  (∀ k, length k = 64 ->
     ∃ this s' m,
       Keypair_fromSecretKey k (mkOptions (Some true)) s = (Ok this, s') ∧
       Keypair_getMnemonic this s' = (Ok (Some m), s')) ∧
  (∀ k opts this s',
     Keypair_fromSecretKey k opts s = (Ok this, s') ->
     Keypair_getMnemonic this s' =
       (Ok (Some (bip39.generateMnemonic (rng s)).1), s')).
Proof.
  split; [|split].
  - eexists _, _, _. split; [apply Keypair_generate_run|].
    cbn zeta. by eapply (Keypair_getMnemonic_at _ (mkKeypairObj _ _)), lookup_last.
  - intros k Hk. eexists _, _, _.
    split; [by apply Keypair_fromSecretKey_skip|].
    by eapply (Keypair_getMnemonic_at _ (mkKeypairObj _ _)), lookup_last.
  - intros k opts this s' Hrun.
    destruct (decide (length k = 64)) as [Hk|Hk].
    + destruct (Keypair_fromSecretKey_cases k opts s Hk) as [Hbad|Hok];
        [congruence|].
      rewrite Hok in Hrun. injection Hrun as <- <-.
      by eapply (Keypair_getMnemonic_at _ (mkKeypairObj _ _)), lookup_last.
    + rewrite Keypair_fromSecretKey_bad_length in Hrun by done. discriminate.
Qed.

(** C2, as the code runs: the raw-key path breaks the invariant.  From
    one state, two different 64-byte keys are both built when validation
    is skipped, both objects hold the same generated phrase, and at least
    one of them holds keys that phrase does not derive. *)
Theorem fromSecretKey_breaks_consistency (k1 k2 : list byte) (opts : Options)
    (s : State Rng) :
  length k1 = 64 -> length k2 = 64 -> k1 ≠ k2 ->
  truthy_bool (skipValidation opts) = true ->
  ∃ k this s' o,
    (k = k1 ∨ k = k2) ∧
    Keypair_fromSecretKey k opts s = (Ok this, s') ∧
    heap s' !! this = Some o ∧
    is_Some (_mnemonic o) ∧
    ¬ consistent o.
Proof.
  intros H1 H2 Hne Hskip.
  set (d := ed25519.fromMnemonic (bip39.generateMnemonic (rng s)).1).
  assert (∀ k, length k = 64 -> d ≠ mkRawKeypair (slice 32 64 k) k ->
    ∃ this s' o, Keypair_fromSecretKey k opts s = (Ok this, s') ∧
      heap s' !! this = Some o ∧ is_Some (_mnemonic o) ∧ ¬ consistent o) as Hbreak.
  { intros k Hk Hd.
    destruct (built_from_consistent k s) as (o & Ho & Hm & Hc).
    exists (length (heap s)), (built_from k s).2, o.
    split; [by apply Keypair_fromSecretKey_skip|].
    split; [done|]. split; [done|].
    intros Hco. by apply Hd, Hc. }
  destruct (decide (d = mkRawKeypair (slice 32 64 k1) k1)) as [Heq|Hd].
  - destruct (Hbreak k2 H2) as (this & s' & o & ?); [|exists k2, this, s', o; tauto].
    rewrite Heq. intros [= _ Hk]. by apply Hne.
  - destruct (Hbreak k1 H1 Hd) as (this & s' & o & ?).
    exists k1, this, s', o. tauto.
Qed.

(** C3, as the code runs: recovery on an object built from a secret key.
    When the phrase [super()] generated is not the empty string,
    [recoverFromMnemonic()] on an object [fromSecretKey] returned does
    what [fromMnemonic] does on that phrase: it does not throw the
    no-mnemonic error, and when the phrase is valid it returns a keypair
    with the keys derived from the phrase. *)
Theorem recover_after_fromSecretKey (k : list byte) (opts : Options) (this : ref)
    (s s' : State Rng) :
  Keypair_fromSecretKey k opts s = (Ok this, s') ->
  (bip39.generateMnemonic (rng s)).1 ≠ "" ->
  Keypair_recoverFromMnemonic this s' =
    Keypair_fromMnemonic (bip39.generateMnemonic (rng s)).1 s' ∧
  (Keypair_recoverFromMnemonic this s').1 ≠ Throw NoMnemonicAvailableError ∧
  (bip39.validateMnemonic (bip39.generateMnemonic (rng s)).1 = true ->
   ∃ that s'',
     Keypair_recoverFromMnemonic this s' = (Ok that, s'') ∧
     Keypair_secretKey that s'' =
       (Ok (secretKey (ed25519.fromMnemonic (bip39.generateMnemonic (rng s)).1)), s'')).
Proof.
  intros Hrun Hm.
  assert (Keypair_recoverFromMnemonic this s' =
    Keypair_fromMnemonic (bip39.generateMnemonic (rng s)).1 s') as Hrec.
  { destruct (decide (length k = 64)) as [Hk|Hk].
    - destruct (Keypair_fromSecretKey_cases k opts s Hk) as [Hbad|Hok];
        [congruence|].
      rewrite Hok in Hrun. injection Hrun as <- <-.
      eapply Keypair_recoverFromMnemonic_present; [apply lookup_last|done..].
    - rewrite Keypair_fromSecretKey_bad_length in Hrun by done. discriminate. }
  split; [done|]. rewrite Hrec. split.
  - destruct (bip39.validateMnemonic (bip39.generateMnemonic (rng s)).1) eqn:Hv.
    + by rewrite Keypair_fromMnemonic_valid.
    + by rewrite Keypair_fromMnemonic_invalid.
  - intros Hv. eexists _, _.
    split; [by apply Keypair_fromMnemonic_valid|].
    eapply Keypair_secretKey_at. cbn [heap]. apply lookup_last.
Qed.

(** C5: a key whose halves do not match.  For a 64-byte key on which
    some byte of the second half differs from the byte the curve utility
    computes from the first half, [fromSecretKey] throws the key-mismatch
    error when [skipValidation] is falsy, and with [skipValidation: true]
    it returns an object that stores bytes 32 to 63 as public key and the
    whole key as secret key, which the two accessors report. *)
Theorem fromSecretKey_mismatch_or_skip (k : list byte) (opts : Options) (s : State Rng) :
  length k = 64 ->
  (∃ i, i < 32 ∧ slice 32 64 k !! i ≠ ed25519.getPublicKey (slice 0 32 k) !! i) ->
  truthy_bool (skipValidation opts) = false ->
  Keypair_fromSecretKey k opts s = (Throw KeyMismatchError, s) ∧
  ∃ this s' m,
    Keypair_fromSecretKey k (mkOptions (Some true)) s = (Ok this, s') ∧
    heap s' !! this = Some (mkKeypairObj (Some (mkRawKeypair (slice 32 64 k) k)) m) ∧
    Keypair_publicKey this s' = (Ok (new_PublicKey (slice 32 64 k)), s') ∧
    Keypair_secretKey this s' = (Ok k, s').
Proof.
  intros Hk Hdiff Hopts. split.
  - by apply Keypair_fromSecretKey_mismatch.
  - set (o := mkKeypairObj (Some (mkRawKeypair (slice 32 64 k) k))
                (Some (bip39.generateMnemonic (rng s)).1)).
    assert (heap (built_from k s).2 !! length (heap s) = Some o) as Hlast
      by apply lookup_last.
    exists (length (heap s)), (built_from k s).2, (_mnemonic o).
    split; [by apply Keypair_fromSecretKey_skip|].
    split; [exact Hlast|].
    split; [exact (Keypair_publicKey_at _ _ _ _ Hlast)|].
    exact (Keypair_secretKey_at _ _ _ _ Hlast).
Qed.

(** C6: the length check.  A key whose length is not 64 makes
    [fromSecretKey] throw the invalid-length error, whatever the options,
    before anything is drawn or built; a key of 64 bytes never makes it
    throw that error. *)
Theorem fromSecretKey_length (k : list byte) (opts : Options) (s : State Rng) :
  (length k ≠ 64 ->
   Keypair_fromSecretKey k opts s = (Throw InvalidKeyLengthError, s)) ∧
  (length k = 64 ->
   (Keypair_fromSecretKey k opts s).1 ≠ Throw InvalidKeyLengthError).
Proof.
  split.
  - apply Keypair_fromSecretKey_bad_length.
  - intros Hk.
    by destruct (Keypair_fromSecretKey_cases k opts s Hk) as [-> | ->].
Qed.

End RawKeys.

(** ** The program on the reference instance *)

Section OnToy.
Import Toy.

(** What the raw-key paths leave behind, run from [start]. *)
Example generate_then_getMnemonic :
  (bind Keypair_generate Keypair_getMnemonic start).1 = Ok (Some "abandon abandon").
Proof. vm_compute. reflexivity. Qed.

Example fromSecretKey_then_getMnemonic :
  (bind (Keypair_fromSecretKey matching_key empty_options) Keypair_getMnemonic start).1
  = Ok (Some "abandon").
Proof. vm_compute. reflexivity. Qed.

Example fromSecretKey_then_recover :
  ∃ that, (bind (Keypair_fromSecretKey matching_key empty_options)
                Keypair_recoverFromMnemonic start).1 = Ok that.
Proof. exists 1. vm_compute. reflexivity. Qed.

Example fromSecretKey_then_recover_keys :
  (bind (Keypair_fromSecretKey matching_key empty_options)
     (fun this => bind (Keypair_recoverFromMnemonic this) Keypair_secretKey) start).1
  ≠ Ok matching_key.
Proof. vm_compute. intros [=]. Qed.

Lemma raw_paths_attach_mnemonic_witness :
  Keypair_fromSecretKey matching_key empty_options start
    = (Ok 0, (Keypair_fromSecretKey matching_key empty_options start).2) ∧
  Keypair_getMnemonic 0 (Keypair_fromSecretKey matching_key empty_options start).2
    = (Ok (Some (bip39.generateMnemonic (rng start)).1),
       (Keypair_fromSecretKey matching_key empty_options start).2).
Proof.
  split; [vm_compute; reflexivity|].
  apply (proj2 (proj2 (raw_paths_attach_mnemonic start)) matching_key empty_options).
  vm_compute. reflexivity.
Defined.

Lemma fromSecretKey_breaks_consistency_witness :
  length mismatched_key = 64 ∧ length matching_key = 64 ∧
  mismatched_key ≠ matching_key ∧
  truthy_bool (skipValidation skip) = true ∧
  ∃ k this s' o,
    (k = mismatched_key ∨ k = matching_key) ∧
    Keypair_fromSecretKey k skip start = (Ok this, s') ∧
    heap s' !! this = Some o ∧
    is_Some (_mnemonic o) ∧
    ¬ consistent o.
Proof.
  assert (mismatched_key ≠ matching_key) as Hne by (vm_compute; intros [=]).
  split; [reflexivity|]. split; [reflexivity|]. split; [exact Hne|].
  split; [reflexivity|].
  apply (fromSecretKey_breaks_consistency mismatched_key matching_key skip start);
    [reflexivity|reflexivity|exact Hne|reflexivity].
Defined.

Lemma recover_after_fromSecretKey_witness :
  Keypair_fromSecretKey mismatched_key skip start
    = (Ok 0, (Keypair_fromSecretKey mismatched_key skip start).2) ∧
  (bip39.generateMnemonic (rng start)).1 ≠ "" ∧
  (Keypair_recoverFromMnemonic 0 (Keypair_fromSecretKey mismatched_key skip start).2).1
    ≠ Throw NoMnemonicAvailableError.
Proof.
  assert ((bip39.generateMnemonic (rng start)).1 ≠ "") as Hm
    by (vm_compute; intros [=]).
  split; [vm_compute; reflexivity|]. split; [exact Hm|].
  apply (recover_after_fromSecretKey mismatched_key skip 0 start);
    [vm_compute; reflexivity|exact Hm].
Defined.

(** The claim of C4 on the constructor fails on the empty string: the
    validation rejects it, and the constructor returns an object. *)
Lemma constructor_accepts_empty_string :
  ¬ (∀ (m : string) (s : State nat),
       bip39.validateMnemonic (Rng:=nat) m = false ->
       (Keypair_fromMnemonic m s).1 = Throw InvalidMnemonicError ∧
       (new_Keypair (Some m) s).1 = Throw InvalidMnemonicError).
Proof.
  intros Hclaim.
  destruct (Hclaim "" start eq_refl) as [_ Hctor].
  vm_compute in Hctor. discriminate Hctor.
Qed.

Lemma invalid_mnemonic_rejected_witness :
  bip39.validateMnemonic (Rng:=nat) "zebra" = false ∧
  "zebra" ≠ "" ∧
  Keypair_fromMnemonic "zebra" start = (Throw InvalidMnemonicError, start) ∧
  new_Keypair (Some "zebra") start =
    (Throw InvalidMnemonicError, mkState 0 [mkKeypairObj None None]).
Proof.
  assert ("zebra" ≠ "") as Hne by (intros [=]).
  split; [reflexivity|]. split; [exact Hne|].
  destruct (invalid_mnemonic_rejected "zebra" start) as [Hstatic Hctor];
    [reflexivity|].
  split; [exact Hstatic|exact (Hctor Hne)].
Defined.

Lemma fromSecretKey_mismatch_or_skip_witness :
  length mismatched_key = 64 ∧
  (∃ i, i < 32 ∧
     slice 32 64 mismatched_key !! i ≠
       ed25519.getPublicKey (Rng:=nat) (slice 0 32 mismatched_key) !! i) ∧
  truthy_bool (skipValidation empty_options) = false ∧
  Keypair_fromSecretKey mismatched_key empty_options start
    = (Throw KeyMismatchError, start) ∧
  ∃ this s' m,
    Keypair_fromSecretKey mismatched_key (mkOptions (Some true)) start = (Ok this, s') ∧
    heap s' !! this =
      Some (mkKeypairObj
              (Some (mkRawKeypair (slice 32 64 mismatched_key) mismatched_key)) m) ∧
    Keypair_publicKey this s' = (Ok (new_PublicKey (slice 32 64 mismatched_key)), s') ∧
    Keypair_secretKey this s' = (Ok mismatched_key, s').
Proof.
  assert (∃ i, i < 32 ∧
     slice 32 64 mismatched_key !! i ≠
       ed25519.getPublicKey (Rng:=nat) (slice 0 32 mismatched_key) !! i) as Hdiff.
  { exists 0. split; [lia|]. vm_compute. intros [=]. }
  split; [reflexivity|]. split; [exact Hdiff|]. split; [reflexivity|].
  apply (fromSecretKey_mismatch_or_skip mismatched_key empty_options start);
    [reflexivity|exact Hdiff|reflexivity].
Defined.

Lemma fromSecretKey_length_witness :
  (length [x00; x01; x02] ≠ 64 ∧
   Keypair_fromSecretKey [x00; x01; x02] skip start
     = (Throw InvalidKeyLengthError, start)) ∧
  (length mismatched_key = 64 ∧
   (Keypair_fromSecretKey mismatched_key empty_options start).1
     ≠ Throw InvalidKeyLengthError).
Proof.
  assert (length [x00; x01; x02] ≠ 64) as Hshort by (simpl; lia).
  split.
  - split; [exact Hshort|].
    exact (proj1 (fromSecretKey_length [x00; x01; x02] skip start) Hshort).
  - split; [reflexivity|].
    apply (proj2 (fromSecretKey_length mismatched_key empty_options start)).
    reflexivity.
Defined.

Lemma fromMnemonic_deterministic_witness :
  bip39.validateMnemonic (Rng:=nat) "abandon ability" = true ∧
  ∃ t1 s1' t2 s2' pk sk,
    Keypair_fromMnemonic "abandon ability" start = (Ok t1, s1') ∧
    Keypair_fromMnemonic "abandon ability" (mkState 7 [mkKeypairObj None None])
      = (Ok t2, s2') ∧
    Keypair_publicKey t1 s1' = (Ok pk, s1') ∧
    Keypair_publicKey t2 s2' = (Ok pk, s2') ∧
    Keypair_secretKey t1 s1' = (Ok sk, s1') ∧
    Keypair_secretKey t2 s2' = (Ok sk, s2').
Proof.
  split; [reflexivity|].
  apply (fromMnemonic_deterministic "abandon ability" start
           (mkState 7 [mkKeypairObj None None])).
  reflexivity.
Defined.

Lemma recover_round_trip_witness :
  bip39.validateMnemonic (Rng:=nat) "" = false ∧
  bip39.validateMnemonic (Rng:=nat) "abandon ability" = true ∧
  ∃ t s1 t' s2,
    Keypair_fromMnemonic "abandon ability" start = (Ok t, s1) ∧
    Keypair_recoverFromMnemonic t s1 = (Ok t', s2) ∧
    t' ≠ t ∧
    heap s2 !! t = heap s1 !! t ∧
    (Keypair_publicKey t' s2).1 = (Keypair_publicKey t s1).1 ∧
    (Keypair_secretKey t' s2).1 = (Keypair_secretKey t s1).1 ∧
    (Keypair_getMnemonic t' s2).1 = (Keypair_getMnemonic t s1).1 ∧
    (Keypair_publicKey t s1).1
      = Ok (new_PublicKey (publicKey (ed25519.fromMnemonic "abandon ability"))) ∧
    (Keypair_secretKey t s1).1
      = Ok (secretKey (ed25519.fromMnemonic "abandon ability")) ∧
    (Keypair_getMnemonic t s1).1 = Ok (Some "abandon ability").
Proof.
  split; [reflexivity|]. split; [reflexivity|].
  apply (recover_round_trip "abandon ability" start); reflexivity.
Defined.

Lemma constructor_rejects_iff_witness :
  (new_Keypair (Some "zebra") start).1 = Throw InvalidMnemonicError ∧
  (new_Keypair (Some "") start).1 = Ok 0.
Proof.
  split.
  - apply (proj1 (constructor_rejects_iff (Some "zebra") start)).
    exists "zebra". split; [reflexivity|]. split; [intros [=]|reflexivity].
  - destruct (constructor_rejects_iff (Rng:=nat) None start) as (_ & -> & ->).
    reflexivity.
Defined.

End OnToy.

(** ** Importing and exporting secret keys *)

Section SecretKeyImport.
Context {Rng : Type} `{!bip39.Service Rng} `{!ed25519.Service Rng}.

Lemma slice_first_half (k : list byte) : slice 0 32 k = take 32 k.
Proof. reflexivity. Qed.

Lemma slice_second_half (k : list byte) :
  length k = 64 -> slice 32 64 k = drop 32 k.
Proof.
  intros Hk. unfold slice. apply take_ge. rewrite length_drop. lia.
Qed.

(** Agreement index by index, as the loop tests it, is equality with the
    first bytes of the computed key. *)
Lemma agree_take (pub comp : list byte) :
  (∀ i, i < length pub -> pub !! i = comp !! i) ↔ take (length pub) comp = pub.
Proof.
  split.
  - intros Hall. apply list_eq. intros i.
    destruct (decide (i < length pub)) as [Hi|Hi].
    + by rewrite lookup_take_lt, Hall.
    + rewrite lookup_take_ge by lia. symmetry. apply lookup_ge_None_2. lia.
  - intros Heq i Hi. rewrite <- Heq at 1. by rewrite lookup_take_lt.
Qed.

Lemma agree_second_half (k : list byte) :
  length k = 64 ->
  (∀ i, i < 32 -> slice 32 64 k !! i = ed25519.getPublicKey (slice 0 32 k) !! i) ↔
  take 32 (ed25519.getPublicKey (take 32 k)) = drop 32 k.
Proof.
  intros Hk. rewrite slice_first_half, slice_second_half by done.
  assert (length (drop 32 k) = 32) as Hlen by (rewrite length_drop; lia).
  pose proof (agree_take (drop 32 k) (ed25519.getPublicKey (take 32 k))) as Hagree.
  by rewrite Hlen in Hagree.
Qed.

(** A call that returns passed the length test and then either skipped
    the comparison or found the two halves in agreement. *)
Lemma Keypair_fromSecretKey_returns (k : list byte) (opts : Options) (this : ref)
    (s s' : State Rng) :
  Keypair_fromSecretKey k opts s = (Ok this, s') ->
  length k = 64 ∧
  (Ok this, s') = built_from k s ∧
  (truthy_bool (skipValidation opts) = true ∨
   take 32 (ed25519.getPublicKey (take 32 k)) = drop 32 k).
Proof.
  intros Hrun.
  destruct (decide (length k = 64)) as [Hk|Hk];
    [|by rewrite Keypair_fromSecretKey_bad_length in Hrun].
  split; [done|].
  destruct (truthy_bool (skipValidation opts)) eqn:Hskip.
  { rewrite Keypair_fromSecretKey_skip in Hrun by done. by split; [|left]. }
  destruct (differ_or_agree (slice 32 64 k)
              (ed25519.getPublicKey (slice 0 32 k)) 32) as [Hex|Hall].
  - by rewrite Keypair_fromSecretKey_mismatch in Hrun.
  - rewrite Keypair_fromSecretKey_match in Hrun by done.
    split; [done|right]. by apply agree_second_half.
Qed.

(** X4: which keys [fromSecretKey] accepts.  The call returns an object
    exactly when the key has 64 bytes and either [skipValidation] is
    truthy or the first 32 bytes of the key the curve utility computes
    from bytes 0 to 31 are bytes 32 to 63; bytes the utility returns
    beyond the 32nd play no part. *)
Theorem fromSecretKey_returns_iff (k : list byte) (opts : Options) (s : State Rng) :
  (∃ this s', Keypair_fromSecretKey k opts s = (Ok this, s')) ↔
  length k = 64 ∧
  (truthy_bool (skipValidation opts) = true ∨
   take 32 (ed25519.getPublicKey (take 32 k)) = drop 32 k).
Proof.
  split.
  - intros (this & s' & Hrun).
    by apply Keypair_fromSecretKey_returns in Hrun as (Hk & _ & Hacc).
  - intros (Hk & [Hskip|Hagree]).
    + eexists _, _. by apply Keypair_fromSecretKey_skip.
    + destruct (truthy_bool (skipValidation opts)) eqn:Hskip.
      * eexists _, _. by apply Keypair_fromSecretKey_skip.
      * eexists _, _. apply Keypair_fromSecretKey_match; [done..|].
        by apply agree_second_half.
Qed.

(** X5: what an accepted key leaves in the object.  Whenever
    [fromSecretKey] returns, the key had 64 bytes, the [secretKey]
    accessor reports the key itself, the [publicKey] accessor reports its
    last 32 bytes, and, when the validation was not skipped, the stored
    pair has the layout the curve utility agrees with. *)
Theorem fromSecretKey_stores_key (k : list byte) (opts : Options) (this : ref)
    (s s' : State Rng) :
  Keypair_fromSecretKey k opts s = (Ok this, s') ->
  length k = 64 ∧
  Keypair_secretKey this s' = (Ok k, s') ∧
  Keypair_publicKey this s' = (Ok (new_PublicKey (drop 32 k)), s') ∧
  length (drop 32 k) = 32 ∧
  (truthy_bool (skipValidation opts) = false ->
   well_formed (mkRawKeypair (drop 32 k) k)).
Proof.
  intros (Hk & Hbuilt & Hacc)%Keypair_fromSecretKey_returns.
  injection Hbuilt as -> ->.
  set (o := mkKeypairObj (Some (mkRawKeypair (slice 32 64 k) k))
              (Some (bip39.generateMnemonic (rng s)).1)).
  assert (heap (built_from k s).2 !! length (heap s) = Some o) as Hlast
    by apply lookup_last.
  split; [done|].
  split; [exact (Keypair_secretKey_at _ _ _ _ Hlast)|].
  split.
  { rewrite <- (slice_second_half k Hk).
    exact (Keypair_publicKey_at _ _ _ _ Hlast). }
  split; [rewrite length_drop; lia|].
  intros Hskip. destruct Hacc as [Hacc|Hacc]; [congruence|].
  by repeat split.
Qed.

(** X6: exporting and importing again.  For an object whose stored pair
    has the layout the curve utility agrees with, passing what its
    [secretKey] accessor returns to [fromSecretKey], validation included,
    returns another object on which both accessors report the same keys;
    the first object is left as it was. *)
Theorem secretKey_reimport (this : ref) (kp : RawKeypair) (mn : option string)
    (s : State Rng) :
  heap s !! this = Some (mkKeypairObj (Some kp) mn) ->
  well_formed kp ->
  ∃ that s',
    bind (Keypair_secretKey this)
         (fun sk => Keypair_fromSecretKey sk empty_options) s = (Ok that, s') ∧
    that ≠ this ∧
    heap s' !! this = Some (mkKeypairObj (Some kp) mn) ∧
    Keypair_publicKey that s' = (Ok (new_PublicKey (publicKey kp)), s') ∧
    Keypair_secretKey that s' = (Ok (secretKey kp), s').
Proof.
  intros Hthis (Hlen & Hpub & Hagree).
  set (o := mkKeypairObj (Some (mkRawKeypair (slice 32 64 (secretKey kp)) (secretKey kp)))
              (Some (bip39.generateMnemonic (rng s)).1)).
  assert (heap (built_from (secretKey kp) s).2 !! length (heap s) = Some o) as Hlast
    by apply lookup_last.
  exists (length (heap s)), (built_from (secretKey kp) s).2.
  split.
  { unfold bind. rewrite (Keypair_secretKey_at _ _ _ _ Hthis).
    apply Keypair_fromSecretKey_match; [done..|].
    apply agree_second_half; [done|]. congruence. }
  split; [symmetry; by eapply lookup_in_range|].
  split.
  { unfold built_from. cbn [snd heap]. rewrite lookup_app_l; [done|].
    by eapply lookup_lt_Some. }
  split.
  - rewrite (Keypair_publicKey_at _ _ _ _ Hlast). cbn [publicKey].
    by rewrite slice_second_half, Hpub.
  - exact (Keypair_secretKey_at _ _ _ _ Hlast).
Qed.

End SecretKeyImport.

(** ** Recovery, and the two ways from a phrase to an object *)

Section Recovery.
Context {Rng : Type} `{!bip39.Service Rng} `{!ed25519.Service Rng}.

Lemma Keypair_recoverFromMnemonic_falsy (this : ref) (o : KeypairObj) (s : State Rng) :
  heap s !! this = Some o -> truthy_string (_mnemonic o) = false ->
  Keypair_recoverFromMnemonic this s = (Throw NoMnemonicAvailableError, s).
Proof.
  intros Ho Hm. unfold Keypair_recoverFromMnemonic, bind, read.
  by rewrite Ho, Hm.
Qed.

Lemma Keypair_recoverFromMnemonic_dangling (this : ref) (s : State Rng) :
  heap s !! this = None ->
  Keypair_recoverFromMnemonic this s = (Throw TypeError, s).
Proof.
  intros Ho. unfold Keypair_recoverFromMnemonic, bind, read. by rewrite Ho.
Qed.

(** A recovery that returns ran on an object with a valid, non-empty
    phrase, and built the object [fromMnemonic] builds from it. *)
Lemma Keypair_recoverFromMnemonic_returns (this that : ref) (s s' : State Rng) :
  Keypair_recoverFromMnemonic this s = (Ok that, s') ->
  ∃ o m,
    heap s !! this = Some o ∧ _mnemonic o = Some m ∧ m ≠ "" ∧
    bip39.validateMnemonic m = true ∧
    that = length (heap s) ∧
    s' = mkState (bip39.generateMnemonic (rng s)).2
           (heap s ++ [mkKeypairObj (Some (ed25519.fromMnemonic m)) (Some m)]).
Proof.
  intros Hrun.
  destruct (heap s !! this) as [o|] eqn:Ho;
    [|by rewrite Keypair_recoverFromMnemonic_dangling in Hrun].
  destruct (truthy_string (_mnemonic o)) eqn:Htruthy;
    [|by rewrite (Keypair_recoverFromMnemonic_falsy _ o) in Hrun].
  destruct (_mnemonic o) as [m|] eqn:Hm; [|done].
  assert (m ≠ "") as Hne.
  { intros ->. by cbn in Htruthy. }
  rewrite (Keypair_recoverFromMnemonic_present _ o m) in Hrun by done.
  destruct (bip39.validateMnemonic m) eqn:Hv;
    [|by rewrite Keypair_fromMnemonic_invalid in Hrun].
  rewrite Keypair_fromMnemonic_valid in Hrun by done.
  injection Hrun as <- <-. by exists o, m.
Qed.

Lemma Keypair_recoverFromMnemonic_valid (this : ref) (o : KeypairObj) (m : string)
    (s : State Rng) :
  heap s !! this = Some o -> _mnemonic o = Some m -> m ≠ "" ->
  bip39.validateMnemonic m = true ->
  let s' := mkState (bip39.generateMnemonic (rng s)).2
              (heap s ++ [mkKeypairObj (Some (ed25519.fromMnemonic m)) (Some m)]) in
  Keypair_recoverFromMnemonic this s = (Ok (length (heap s)), s') ∧
  length (heap s) ≠ this ∧
  heap s' !! length (heap s)
    = Some (mkKeypairObj (Some (ed25519.fromMnemonic m)) (Some m)) ∧
  heap s' !! this = Some o.
Proof.
  intros Ho Hm Hne Hv. cbn zeta. split.
  { rewrite (Keypair_recoverFromMnemonic_present _ o m) by done.
    by apply Keypair_fromMnemonic_valid. }
  split; [symmetry; by eapply lookup_in_range|].
  split; [apply lookup_last|].
  cbn [heap]. rewrite lookup_app_l; [done|]. by eapply lookup_lt_Some.
Qed.

(** X7: what recovery does, from the stored phrase alone.  On an object
    of the store, [recoverFromMnemonic()] throws the no-mnemonic error
    when the stored phrase is [undefined] or the empty string, throws the
    invalid-mnemonic error when the phrase is non-empty and fails
    validation, both without touching the store or the random source, and
    otherwise returns another object holding the phrase and the keys
    derived from it, whatever keys the first object holds, and leaves the
    first object as it was. *)
Theorem recoverFromMnemonic_outcomes (this : ref) (o : KeypairObj) (s : State Rng) :
  heap s !! this = Some o ->
  (truthy_string (_mnemonic o) = false ->
   Keypair_recoverFromMnemonic this s = (Throw NoMnemonicAvailableError, s)) ∧
  (∀ m, _mnemonic o = Some m -> m ≠ "" -> bip39.validateMnemonic m = false ->
   Keypair_recoverFromMnemonic this s = (Throw InvalidMnemonicError, s)) ∧
  (∀ m, _mnemonic o = Some m -> m ≠ "" -> bip39.validateMnemonic m = true ->
   ∃ that s',
     Keypair_recoverFromMnemonic this s = (Ok that, s') ∧
     that ≠ this ∧
     heap s' !! that = Some (mkKeypairObj (Some (ed25519.fromMnemonic m)) (Some m)) ∧
     heap s' !! this = Some o).
Proof.
  intros Ho. split; [|split].
  - by apply Keypair_recoverFromMnemonic_falsy.
  - intros m Hm Hne Hv.
    rewrite (Keypair_recoverFromMnemonic_present _ o m) by done.
    by apply Keypair_fromMnemonic_invalid.
  - intros m Hm Hne Hv. eexists _, _.
    exact (Keypair_recoverFromMnemonic_valid this o m s Ho Hm Hne Hv).
Qed.

(** X8: recovery is idempotent.  When [recoverFromMnemonic()] returns an
    object, calling it again on that object returns a third one with the
    same fields, the second is left as it was, and its phrase derives its
    keys. *)
Theorem recover_idempotent (this that : ref) (s s1 : State Rng) :
  Keypair_recoverFromMnemonic this s = (Ok that, s1) ->
  ∃ again s2 o,
    Keypair_recoverFromMnemonic that s1 = (Ok again, s2) ∧
    again ≠ that ∧
    heap s1 !! that = Some o ∧
    heap s2 !! that = Some o ∧
    heap s2 !! again = Some o ∧
    consistent o.
Proof.
  intros (o0 & m & Ho0 & Hm & Hne & Hv & -> & ->)%Keypair_recoverFromMnemonic_returns.
  set (o := mkKeypairObj (Some (ed25519.fromMnemonic m)) (Some m)).
  set (s1 := mkState (bip39.generateMnemonic (rng s)).2 (heap s ++ [o])).
  assert (heap s1 !! length (heap s) = Some o) as Hthat by apply lookup_last.
  destruct (Keypair_recoverFromMnemonic_valid (length (heap s)) o m s1
              Hthat eq_refl Hne Hv) as (Hrun & Hfresh & Hagain & Hkept).
  eexists _, _, o. by repeat split.
Qed.

(** X3: the constructor and the static factory on a valid phrase.  For
    a valid, non-empty phrase, [new Keypair(m)] and [Keypair.fromMnemonic(m)]
    leave the same store, with a new object holding [m] and the keys
    derived from it; the constructor leaves the random source as it was,
    the factory advances it by the phrase its inner [new Keypair()] drew
    and discarded. *)
Theorem constructor_matches_fromMnemonic (m : string) (s : State Rng) :
  m ≠ "" -> bip39.validateMnemonic m = true ->
  ∃ this s1 s2,
    new_Keypair (Some m) s = (Ok this, s1) ∧
    Keypair_fromMnemonic m s = (Ok this, s2) ∧
    heap s1 = heap s2 ∧
    heap s1 !! this = Some (mkKeypairObj (Some (ed25519.fromMnemonic m)) (Some m)) ∧
    rng s1 = rng s ∧
    rng s2 = (bip39.generateMnemonic (rng s)).2.
Proof.
  intros Hne Hv. eexists _, _, _.
  split; [by apply new_Keypair_valid|].
  split; [by apply Keypair_fromMnemonic_valid|].
  split; [done|]. split; [apply lookup_last|done].
Qed.

(** X11: the keys of [generate()].  The object [generate()] returns
    reports, through both accessors, the pair the curve utility generated;
    the pair [super()] derived from its own phrase is overwritten, and the
    random source has served the pair first and the phrase second. *)
Theorem generate_reports_generated_keys (s : State Rng) :
  ∃ this s',
    Keypair_generate s = (Ok this, s') ∧
    Keypair_publicKey this s' =
      (Ok (new_PublicKey (publicKey (ed25519.generateKeypair (rng s)).1)), s') ∧
    Keypair_secretKey this s' =
      (Ok (secretKey (ed25519.generateKeypair (rng s)).1), s') ∧
    rng s' = (bip39.generateMnemonic (ed25519.generateKeypair (rng s)).2).2.
Proof.
  eexists _, _. split; [apply Keypair_generate_run|]. cbn zeta.
  split; [eapply Keypair_publicKey_at; apply lookup_last|].
  split; [eapply Keypair_secretKey_at; apply lookup_last|done].
Qed.

End Recovery.

(** ** What a client can and cannot bring about *)

Section Reachable.
Context {Rng : Type} `{!bip39.Service Rng} `{!ed25519.Service Rng}.

(** Every call ends in one of three ways: it returns a new object with
    both fields assigned, at the end of the store; it throws with the
    state as it was; or, for a constructor call on a rejected phrase, it
    throws with one more cell in the store, both fields [undefined].  The
    phrase of a new object is valid and non-empty when the mnemonic
    package rejects the empty phrase and accepts what it generates. *)
Lemma run_call_outcome (c : call) (s : State Rng) :
  (∃ r kp m,
     run_call c s =
       (Ok (length (heap s)),
        mkState r (heap s ++ [mkKeypairObj (Some kp) (Some m)])) ∧
     (bip39.validateMnemonic "" = false ->
      (∀ r0, bip39.validateMnemonic (bip39.generateMnemonic r0).1 = true) ->
      bip39.validateMnemonic m = true ∧ m ≠ "")) ∨
  (∃ e, run_call c s = (Throw e, s)) ∨
  (∃ m, c = CallNew (Some m) ∧
     run_call c s =
       (Throw InvalidMnemonicError,
        mkState (rng s) (heap s ++ [mkKeypairObj None None]))).
Proof.
  assert (∀ m, bip39.validateMnemonic "" = false ->
            bip39.validateMnemonic m = true -> m ≠ "") as Hnonempty
    by (intros m He Hv ->; congruence).
  destruct c as [[m|]| |m|k opts|this]; cbn [run_call].
  - destruct (decide (m = "")) as [->|Hm].
    + left. rewrite new_Keypair_empty_string, new_Keypair_omitted.
      eexists _, _, _. split; [done|]. intros He Hg. split; [apply Hg|].
      apply Hnonempty; [done|apply Hg].
    + destruct (bip39.validateMnemonic m) eqn:Hv.
      * left. rewrite new_Keypair_valid by done. eexists _, _, _. by split.
      * right. right. exists m. split; [done|]. by apply new_Keypair_invalid.
  - left. rewrite new_Keypair_omitted.
    eexists _, _, _. split; [done|]. intros He Hg. split; [apply Hg|].
    apply Hnonempty; [done|apply Hg].
  - left. rewrite Keypair_generate_run. cbn zeta.
    eexists _, _, _. split; [done|]. intros He Hg. split; [apply Hg|].
    apply Hnonempty; [done|apply Hg].
  - destruct (bip39.validateMnemonic m) eqn:Hv.
    + left. rewrite Keypair_fromMnemonic_valid by done.
      eexists _, _, _. split; [done|]. intros He Hg. split; [done|].
      by apply Hnonempty.
    + right. left. eexists. by apply Keypair_fromMnemonic_invalid.
  - destruct (decide (length k = 64)) as [Hk|Hk].
    + destruct (Keypair_fromSecretKey_cases k opts s Hk) as [-> | ->].
      * right. left. by eexists.
      * left. eexists _, _, _. split; [done|]. intros He Hg. split; [apply Hg|].
        apply Hnonempty; [done|apply Hg].
    + right. left. eexists. by apply Keypair_fromSecretKey_bad_length.
  - destruct (heap s !! this) as [o|] eqn:Ho.
    + destruct (truthy_string (_mnemonic o)) eqn:Htruthy.
      * destruct (_mnemonic o) as [m|] eqn:Hm; [|done].
        assert (m ≠ "") as Hne by (intros ->; by cbn in Htruthy).
        rewrite (Keypair_recoverFromMnemonic_present _ o m) by done.
        destruct (bip39.validateMnemonic m) eqn:Hv.
        -- left. rewrite Keypair_fromMnemonic_valid by done.
           eexists _, _, _. by split.
        -- right. left. eexists. by apply Keypair_fromMnemonic_invalid.
      * right. left. eexists. by eapply Keypair_recoverFromMnemonic_falsy.
    + right. left. eexists. by apply Keypair_recoverFromMnemonic_dangling.
Qed.

(** The objects a client holds have both fields assigned. *)
Lemma reachable_held (s : State Rng) (held : list ref) :
  reachable s held ->
  ∀ t, t ∈ held ->
    ∃ kp m, heap s !! t = Some (mkKeypairObj (Some kp) (Some m)) ∧
      (bip39.validateMnemonic "" = false ->
       (∀ r0, bip39.validateMnemonic (bip39.generateMnemonic r0).1 = true) ->
       bip39.validateMnemonic m = true ∧ m ≠ "").
Proof.
  induction 1 as [r|c s s' held this Hreach IH Hcall Hrun
                   |c s s' held e Hreach IH Hcall Hrun]; intros t Ht.
  - by apply elem_of_nil in Ht.
  - destruct (run_call_outcome c s)
      as [(r & kp & m & Hok & Hphrase)|[(e & Hthrow)|(m & _ & Hthrow)]];
      [|congruence..].
    rewrite Hok in Hrun. injection Hrun as <- <-.
    apply elem_of_cons in Ht as [->|Ht].
    + exists kp, m. split; [apply lookup_last|done].
    + destruct (IH t Ht) as (kp' & m' & Hlook & Hphrase').
      exists kp', m'. split; [|done].
      cbn [heap]. rewrite lookup_app_l; [done|]. by eapply lookup_lt_Some.
  - destruct (IH t Ht) as (kp' & m' & Hlook & Hphrase').
    exists kp', m'. split; [|done].
    destruct (run_call_outcome c s)
      as [(r & kp & m & Hok & Hphrase)|[(e0 & Hthrow)|(m & _ & Hthrow)]];
      [congruence| |].
    + rewrite Hthrow in Hrun. by injection Hrun as <- <-.
    + rewrite Hthrow in Hrun. injection Hrun as <- <-.
      cbn [heap]. rewrite lookup_app_l; [done|]. by eapply lookup_lt_Some.
Qed.

(** X1: no call changes an object that exists.  Whatever the call and
    whether it returns or throws, every object of the store is afterwards
    what it was before, and a reference the call returns is to none of
    them. *)
Theorem calls_preserve_objects (c : call) (s : State Rng) (t : ref) (o : KeypairObj) :
  heap s !! t = Some o ->
  heap (run_call c s).2 !! t = Some o ∧
  (run_call c s).1 ≠ Ok t.
Proof.
  intros Ht.
  assert (t < length (heap s)) as Hlt by by eapply lookup_lt_Some.
  destruct (run_call_outcome c s)
    as [(r & kp & m & -> & _)|[(e & ->)|(m & _ & ->)]]; cbn [fst snd heap].
  - split; [by rewrite lookup_app_l|]. intros [= Heq]. lia.
  - by split.
  - split; [by rewrite lookup_app_l|done].
Qed.

(** X2: a call that throws has drawn and built nothing.  After a throw
    the state is the one before the call, but for the constructor called
    with a rejected phrase: it leaves, at the end of the store, the object
    it was running on, with both fields [undefined] and the random source
    untouched. *)
Theorem throwing_calls_leave_state (c : call) (s s' : State Rng) (e : Error) :
  run_call c s = (Throw e, s') ->
  s' = s ∨
  (∃ m, c = CallNew (Some m) ∧ m ≠ "" ∧ bip39.validateMnemonic m = false ∧
        e = InvalidMnemonicError ∧
        s' = mkState (rng s) (heap s ++ [mkKeypairObj None None])).
Proof.
  intros Hrun.
  destruct (run_call_outcome c s)
    as [(r & kp & m & Hok & _)|[(e0 & Hthrow)|(m & -> & Hthrow)]].
  - congruence.
  - rewrite Hthrow in Hrun. injection Hrun as <- <-. by left.
  - rewrite Hthrow in Hrun. injection Hrun as <- <-. right.
    exists m. cbn [run_call] in Hthrow.
    destruct (new_Keypair_cases (Some m) s) as [[s0 Hok]|(m0 & [= <-] & Hne & Hv)];
      [congruence|done].
Qed.

(** X9: the objects a client holds are complete.  In every state a
    client can reach, on every object it was handed, the [publicKey] and
    [secretKey] accessors return the stored keys and [getMnemonic()]
    returns a phrase: no accessor throws, and none returns [undefined]. *)
Theorem held_objects_complete (s : State Rng) (held : list ref) (t : ref) :
  reachable s held -> t ∈ held ->
  ∃ kp m,
    Keypair_publicKey t s = (Ok (new_PublicKey (publicKey kp)), s) ∧
    Keypair_secretKey t s = (Ok (secretKey kp), s) ∧
    Keypair_getMnemonic t s = (Ok (Some m), s).
Proof.
  intros Hreach Ht.
  destruct (reachable_held s held Hreach t Ht) as (kp & m & Hlook & _).
  exists kp, m.
  split; [exact (Keypair_publicKey_at _ _ _ _ Hlook)|].
  split; [exact (Keypair_secretKey_at _ _ _ _ Hlook)|].
  exact (Keypair_getMnemonic_at _ _ _ Hlook).
Qed.

(** X10: recovery cannot fail for a client.  When the mnemonic package
    rejects the empty phrase and accepts every phrase it generates, then
    in every state a client can reach [recoverFromMnemonic()] returns on
    every object the client was handed: neither of its errors can
    occur. *)
Theorem recover_always_returns (s : State Rng) (held : list ref) (t : ref) :
  bip39.validateMnemonic "" = false ->
  (∀ r, bip39.validateMnemonic (bip39.generateMnemonic r).1 = true) ->
  reachable s held -> t ∈ held ->
  ∃ that s', Keypair_recoverFromMnemonic t s = (Ok that, s').
Proof.
  intros He Hg Hreach Ht.
  destruct (reachable_held s held Hreach t Ht) as (kp & m & Hlook & Hphrase).
  destruct (Hphrase He Hg) as [Hv Hne].
  eexists _, _.
  rewrite (Keypair_recoverFromMnemonic_present _ _ m _ Hlook) by done.
  by apply Keypair_fromMnemonic_valid.
Qed.

End Reachable.

(** ** The further properties on the reference instance *)

Section MoreOnToy.
Import Toy.

(** The reference mnemonic package keeps the contract of the real one. *)
Lemma toy_rejects_empty : bip39.validateMnemonic (Rng:=nat) "" = false.
Proof. reflexivity. Qed.

Lemma toy_generates_valid (r : nat) :
  bip39.validateMnemonic (bip39.generateMnemonic r).1 = true.
Proof. destruct r; reflexivity. Qed.

Lemma toy_derives_well_formed :
  well_formed (Rng:=nat) (ed25519.fromMnemonic "abandon ability").
Proof. unfold well_formed. repeat split; vm_compute; reflexivity. Qed.

Lemma calls_preserve_objects_witness :
  heap (Keypair_fromMnemonic "abandon ability" start).2 !! 0
    = Some (mkKeypairObj (Some (ed25519.fromMnemonic "abandon ability"))
                         (Some "abandon ability")) ∧
  heap (run_call (CallRecover 0) (Keypair_fromMnemonic "abandon ability" start).2).2 !! 0
    = Some (mkKeypairObj (Some (ed25519.fromMnemonic "abandon ability"))
                         (Some "abandon ability")) ∧
  (run_call (CallRecover 0) (Keypair_fromMnemonic "abandon ability" start).2).1 ≠ Ok 0.
Proof.
  split; [vm_compute; reflexivity|].
  apply (calls_preserve_objects (CallRecover 0)
           (Keypair_fromMnemonic "abandon ability" start).2 0).
  vm_compute. reflexivity.
Defined.

Lemma throwing_calls_leave_state_witness :
  run_call (CallNew (Some "zebra")) start
    = (Throw InvalidMnemonicError, mkState 0 [mkKeypairObj None None]) ∧
  (mkState 0 [mkKeypairObj None None] = start ∨
   ∃ m, CallNew (Some "zebra") = CallNew (Some m) ∧ m ≠ "" ∧
        bip39.validateMnemonic (Rng:=nat) m = false ∧
        InvalidMnemonicError = InvalidMnemonicError ∧
        mkState 0 [mkKeypairObj None None]
          = mkState (rng start) (heap start ++ [mkKeypairObj None None])).
Proof.
  split; [vm_compute; reflexivity|].
  apply (throwing_calls_leave_state (CallNew (Some "zebra")) start).
  vm_compute. reflexivity.
Defined.

Lemma constructor_matches_fromMnemonic_witness :
  "abandon ability" ≠ "" ∧
  bip39.validateMnemonic (Rng:=nat) "abandon ability" = true ∧
  ∃ this s1 s2,
    new_Keypair (Some "abandon ability") start = (Ok this, s1) ∧
    Keypair_fromMnemonic "abandon ability" start = (Ok this, s2) ∧
    heap s1 = heap s2 ∧
    heap s1 !! this
      = Some (mkKeypairObj (Some (ed25519.fromMnemonic "abandon ability"))
                           (Some "abandon ability")) ∧
    rng s1 = rng start ∧
    rng s2 = (bip39.generateMnemonic (rng start)).2.
Proof.
  assert ("abandon ability" ≠ "") as Hne by (intros [=]).
  split; [exact Hne|]. split; [reflexivity|].
  apply (constructor_matches_fromMnemonic "abandon ability" start);
    [exact Hne|reflexivity].
Defined.

Lemma fromSecretKey_returns_iff_witness :
  ∃ this s', Keypair_fromSecretKey matching_key empty_options start = (Ok this, s').
Proof.
  apply (proj2 (fromSecretKey_returns_iff matching_key empty_options start)).
  split; [reflexivity|]. right. vm_compute. reflexivity.
Defined.

Lemma fromSecretKey_stores_key_witness :
  Keypair_fromSecretKey matching_key empty_options start
    = (Ok 0, (Keypair_fromSecretKey matching_key empty_options start).2) ∧
  length matching_key = 64 ∧
  Keypair_secretKey 0 (Keypair_fromSecretKey matching_key empty_options start).2
    = (Ok matching_key, (Keypair_fromSecretKey matching_key empty_options start).2) ∧
  Keypair_publicKey 0 (Keypair_fromSecretKey matching_key empty_options start).2
    = (Ok (new_PublicKey (drop 32 matching_key)),
       (Keypair_fromSecretKey matching_key empty_options start).2) ∧
  length (drop 32 matching_key) = 32 ∧
  (truthy_bool (skipValidation empty_options) = false ->
   well_formed (Rng:=nat) (mkRawKeypair (drop 32 matching_key) matching_key)).
Proof.
  split; [vm_compute; reflexivity|].
  apply (fromSecretKey_stores_key matching_key empty_options 0 start).
  vm_compute. reflexivity.
Defined.

Lemma secretKey_reimport_witness :
  heap (Keypair_fromMnemonic "abandon ability" start).2 !! 0
    = Some (mkKeypairObj (Some (ed25519.fromMnemonic "abandon ability"))
                         (Some "abandon ability")) ∧
  well_formed (Rng:=nat) (ed25519.fromMnemonic "abandon ability") ∧
  ∃ that s',
    bind (Keypair_secretKey 0)
         (fun sk => Keypair_fromSecretKey sk empty_options)
         (Keypair_fromMnemonic "abandon ability" start).2 = (Ok that, s') ∧
    that ≠ 0 ∧
    heap s' !! 0
      = Some (mkKeypairObj (Some (ed25519.fromMnemonic "abandon ability"))
                           (Some "abandon ability")) ∧
    Keypair_publicKey that s'
      = (Ok (new_PublicKey (publicKey (ed25519.fromMnemonic "abandon ability"))), s') ∧
    Keypair_secretKey that s'
      = (Ok (secretKey (ed25519.fromMnemonic "abandon ability")), s').
Proof.
  split; [vm_compute; reflexivity|]. split; [exact toy_derives_well_formed|].
  apply (secretKey_reimport 0 (ed25519.fromMnemonic "abandon ability")
           (Some "abandon ability") (Keypair_fromMnemonic "abandon ability" start).2);
    [vm_compute; reflexivity|exact toy_derives_well_formed].
Defined.

Lemma recoverFromMnemonic_outcomes_witness :
  heap (Keypair_fromSecretKey mismatched_key skip start).2 !! 0
    = Some (mkKeypairObj (Some (mkRawKeypair (drop 32 mismatched_key) mismatched_key))
                         (Some "abandon")) ∧
  ∃ that s',
    Keypair_recoverFromMnemonic 0 (Keypair_fromSecretKey mismatched_key skip start).2
      = (Ok that, s') ∧
    that ≠ 0 ∧
    heap s' !! that
      = Some (mkKeypairObj (Some (ed25519.fromMnemonic "abandon")) (Some "abandon")) ∧
    heap s' !! 0
      = Some (mkKeypairObj (Some (mkRawKeypair (drop 32 mismatched_key) mismatched_key))
                           (Some "abandon")).
Proof.
  assert (heap (Keypair_fromSecretKey mismatched_key skip start).2 !! 0
    = Some (mkKeypairObj (Some (mkRawKeypair (drop 32 mismatched_key) mismatched_key))
                         (Some "abandon"))) as Hlook by (vm_compute; reflexivity).
  split; [exact Hlook|].
  apply (proj2 (proj2 (recoverFromMnemonic_outcomes 0 _ _ Hlook)) "abandon");
    [reflexivity|intros [=]|reflexivity].
Defined.

Lemma recover_idempotent_witness :
  Keypair_recoverFromMnemonic 0 (Keypair_fromMnemonic "abandon ability" start).2
    = (Ok 1, (Keypair_recoverFromMnemonic 0
                (Keypair_fromMnemonic "abandon ability" start).2).2) ∧
  ∃ again s2 o,
    Keypair_recoverFromMnemonic 1
      (Keypair_recoverFromMnemonic 0 (Keypair_fromMnemonic "abandon ability" start).2).2
      = (Ok again, s2) ∧
    again ≠ 1 ∧
    heap (Keypair_recoverFromMnemonic 0
            (Keypair_fromMnemonic "abandon ability" start).2).2 !! 1 = Some o ∧
    heap s2 !! 1 = Some o ∧
    heap s2 !! again = Some o ∧
    consistent o.
Proof.
  split; [vm_compute; reflexivity|].
  apply (recover_idempotent 0 1 (Keypair_fromMnemonic "abandon ability" start).2).
  vm_compute. reflexivity.
Defined.

(** A state a client reaches with one call, holding one object. *)
Lemma toy_reachable :
  reachable (run_call (CallFromSecretKey mismatched_key skip) start).2 [0].
Proof.
  apply (reachable_return (CallFromSecretKey mismatched_key skip) start _ [] 0).
  - apply (reachable_start 0).
  - exact I.
  - vm_compute. reflexivity.
Qed.

Lemma held_objects_complete_witness :
  reachable (run_call (CallFromSecretKey mismatched_key skip) start).2 [0] ∧
  0 ∈ [0] ∧
  ∃ kp m,
    Keypair_publicKey 0 (run_call (CallFromSecretKey mismatched_key skip) start).2
      = (Ok (new_PublicKey (publicKey kp)),
         (run_call (CallFromSecretKey mismatched_key skip) start).2) ∧
    Keypair_secretKey 0 (run_call (CallFromSecretKey mismatched_key skip) start).2
      = (Ok (secretKey kp), (run_call (CallFromSecretKey mismatched_key skip) start).2) ∧
    Keypair_getMnemonic 0 (run_call (CallFromSecretKey mismatched_key skip) start).2
      = (Ok (Some m), (run_call (CallFromSecretKey mismatched_key skip) start).2).
Proof.
  assert (0 ∈ [0]) as Hin by constructor.
  split; [exact toy_reachable|]. split; [exact Hin|].
  exact (held_objects_complete _ [0] 0 toy_reachable Hin).
Defined.

Lemma recover_always_returns_witness :
  bip39.validateMnemonic (Rng:=nat) "" = false ∧
  (∀ r : nat, bip39.validateMnemonic (bip39.generateMnemonic r).1 = true) ∧
  reachable (run_call (CallFromSecretKey mismatched_key skip) start).2 [0] ∧
  0 ∈ [0] ∧
  ∃ that s',
    Keypair_recoverFromMnemonic 0
      (run_call (CallFromSecretKey mismatched_key skip) start).2 = (Ok that, s').
Proof.
  assert (0 ∈ [0]) as Hin by constructor.
  split; [exact toy_rejects_empty|]. split; [exact toy_generates_valid|].
  split; [exact toy_reachable|]. split; [exact Hin|].
  exact (recover_always_returns _ [0] 0 toy_rejects_empty toy_generates_valid
           toy_reachable Hin).
Defined.

End MoreOnToy.
